(** * Parallel_Example.ipynb: column means, sequentially and through a worker pool

    A shallow embedding of the notebook [Parallel_Example.ipynb]:

    - [calc_column_mean] (code cell 4),
    - the sequential list comprehension (code cell 6),
    - the two [Parallel(n_jobs=..)] dispatches (code cells 7 and 8),
    - the [print] statements that report the timings.

    The notebook is a Python program over a numpy array.  Python effects are
    modelled by a state-and-exception monad over a [World] which holds the
    array buffers, the wall clock, the standard output and a log of the
    entries into [calc_column_mean].  numpy and joblib are libraries: the few
    operations the notebook uses are modelled after their documented
    behaviour, each with a comment saying so. *)

From Stdlib Require Import QArith Qabs PrimFloat Uint63.
From stdpp Require Import gmap strings list pretty.

Open Scope Z_scope.

(** ** Scalars

    The entries of the matrix are float64 values.  [ndarray.mean] is
    [add.reduce(arr) / count]; the order in which [add.reduce] associates
    the additions is internal to numpy (blocked pairwise summation), so the
    model takes the reduction, the division and the conversion of the item
    count as an interface. *)
Class Scalar (F : Type) := {
  add_reduce : list F → F;
  true_divide : F → F → F;
  of_count : nat → F
}.

(** *** float64, with numpy's pairwise summation

    Fewer than 8 items are added from left to right.  Up to 128 items are
    added in 8 lanes, item [i] going to lane [i mod 8] for the leading
    multiple of 8; the lanes are combined as a balanced tree and the
    remaining items added one by one.  More than 128 items are split near
    the middle, at a multiple of 8, and the two sums added.  The reduction
    adds that sum to its start value 0. *)
Fixpoint unrolled (blocks : nat) (rs xs : list float) : list float * list float :=
  match blocks with
  | O => (rs, xs)
  | S blocks' =>
      unrolled blocks' (zip_with PrimFloat.add rs (take 8 xs)) (drop 8 xs)
  end.

Definition block_sum (xs : list float) : float :=
  let '(rs, rest) := unrolled (length xs / 8 - 1) (take 8 xs) (drop 8 xs) in
  match rs with
  | [r0; r1; r2; r3; r4; r5; r6; r7] =>
      fold_left PrimFloat.add rest
        (PrimFloat.add
           (PrimFloat.add (PrimFloat.add r0 r1) (PrimFloat.add r2 r3))
           (PrimFloat.add (PrimFloat.add r4 r5) (PrimFloat.add r6 r7)))
  | _ => fold_left PrimFloat.add xs 0%float
  end.

(** The recursion halves the list, so a depth of [length xs] is never
    used up. *)
Fixpoint pairwise_sum (depth : nat) (xs : list float) : float :=
  let n := length xs in
  if (n <? 8)%nat then fold_left PrimFloat.add xs 0%float
  else if (n <=? 128)%nat then block_sum xs
  else
    match depth with
    | O => block_sum xs
    | S depth' =>
        let n2 := (n / 2 - (n / 2) mod 8)%nat in
        PrimFloat.add (pairwise_sum depth' (take n2 xs))
                      (pairwise_sum depth' (drop n2 xs))
    end.

#[global] Instance float64 : Scalar float := {|
  add_reduce xs := PrimFloat.add 0%float (pairwise_sum (length xs) xs);
  true_divide := PrimFloat.div;
  of_count n := PrimFloat.of_uint63 (Uint63.of_Z (Z.of_nat n))
|}.

(** ** Exceptions and results *)
Inductive exn : Set :=
  | IndexError      (* index out of bounds for an axis, or not an index *)
  | OverflowError   (* an index too large to convert to a C long *)
  | ValueError      (* Parallel(n_jobs=0); an array too big to allocate *)
  | MemoryFault     (* a read outside an allocated buffer *)
  | RuntimeError.   (* a result slot of the pool that was never filled *)

Inductive result (A : Type) : Type :=
  | Ok (a : A)
  | Err (e : exn).
Arguments Ok {A} a.
Arguments Err {A} e.

Definition is_ok {A} (r : result A) : bool :=
  match r with Ok _ => true | Err _ => false end.

(** ** Number formatting: ['{:.2f}'.format(x)]

    The elapsed time is a float, hence a rational; it is printed with two
    digits after the point, rounded half to even on its exact value, with
    the sign kept even when the digits are all zero. *)
Definition round_half_even (q : Q) : Z :=
  let n := Qnum q in
  let d := Z.pos (Qden q) in
  let fl := n / d in
  match (2 * (n mod d) ?= d) with
  | Lt => fl
  | Gt => fl + 1
  | Eq => if Z.even fl then fl else fl + 1
  end.

Definition format_2f (x : Q) : string :=
  let cents := round_half_even (Qabs x * 100) in
  (if Qnum x <? 0 then "-" else "")
    +:+ pretty (cents / 100) +:+ "."
    +:+ pretty (cents mod 100 / 10) +:+ pretty (cents mod 10).

(** ** The worker pool *)

(** Modelled from the spec: joblib's [Parallel] and [delayed] are library
    code, they are not among the sources.  The specification describes the
    facility as a coordinator that hands independent work items, one per
    column, to a fixed-size pool of workers, collects each result into a
    pre-sized slot array keyed by the index of its task, returns the slots
    in index order whatever the completion order, and aborts on the first
    failure of a worker.  The pool below does that; the completion order
    is chosen from outside, by a list of picks. *)
Section Pool.
Context {T R : Type}.
Variable exec : T → result R.

Record pool := {
  pending : list (nat * T);      (* indexed tasks not yet handed out *)
  running : list (nat * T);      (* at most n_jobs tasks on workers *)
  slots : list (option R)        (* one result slot per task index *)
}.

(** Hand pending tasks to the free workers, oldest first. *)
Definition dispatch (n_jobs : nat) (p : pool) : pool :=
  let free := (n_jobs - length (running p))%nat in
  {| pending := drop free (pending p);
     running := running p ++ take free (pending p);
     slots := slots p |}.

(** The worker chosen by [pick] finishes: its result goes to the slot of
    its task index, or its exception aborts the pool. *)
Definition complete (pick : nat) (p : pool) : result pool :=
  let k := (pick mod length (running p))%nat in
  match running p !! k with
  | None => Ok p
  | Some (i, t) =>
      match exec t with
      | Err e => Err e
      | Ok r => Ok {| pending := pending p;
                      running := delete k (running p);
                      slots := <[i := Some r]> (slots p) |}
      end
  end.

(** One round per task: every round with a busy worker finishes one. *)
Fixpoint pool_loop (n_jobs rounds : nat) (picks : list nat) (p : pool)
  : result pool :=
  match rounds with
  | O => Ok p
  | S rounds' =>
      match complete (hd 0%nat picks) (dispatch n_jobs p) with
      | Err e => Err e
      | Ok p' => pool_loop n_jobs rounds' (tl picks) p'
      end
  end.

Definition pool_init (tasks : list T) : pool :=
  {| pending := imap pair tasks;
     running := [];
     slots := replicate (length tasks) None |}.

(** The results are read out of the slots in index order. *)
Definition pool_map (n_jobs : nat) (picks : list nat) (tasks : list T)
  : result (list R) :=
  match pool_loop n_jobs (length tasks) picks (pool_init tasks) with
  | Err e => Err e
  | Ok p =>
      match mapM id (slots p) with
      | Some rs => Ok rs
      | None => Err RuntimeError
      end
  end.

(** The tasks the pool still owes a result for. *)
Definition unfinished (p : pool) : list (nat * T) := pending p ++ running p.

(** What the loop maintains, for tasks [tasks] whose results are [rs]:
    there is a slot per task, whatever is unfinished is a task under its
    own index, and a task is either unfinished or has its result in its
    slot. *)
Record pool_inv (tasks : list T) (rs : list R) (p : pool) : Prop := {
  inv_slots : length (slots p) = length tasks;
  inv_tasks : ∀ i t, (i, t) ∈ unfinished p → tasks !! i = Some t;
  inv_done : ∀ i r, rs !! i = Some r →
    slots p !! i = Some (Some r) ∨ ∃ t, (i, t) ∈ unfinished p
}.
End Pool.

Arguments pool : clear implicits.

(** What the operating system decides during one [Parallel] call: the
    order in which busy workers finish and the wall-clock time the whole
    call takes. *)
Record schedule := { picks : list nat; wall : Q }.

(** ** The notebook *)
Section Notebook.
Context {F : Type} `{Scalar F}.

(** *** The world *)
Record World := {
  heap : gmap positive (list F);   (* array buffers, by base address *)
  clock : Q;                       (* wall clock, in seconds *)
  stdout : list string;            (* lines printed so far *)
  calls : list Z                   (* ghost: columns calc_column_mean was entered with *)
}.

Definition M (A : Type) : Type := World → result A * World.

#[global] Instance M_ret : MRet M := λ A a w, (Ok a, w).
#[global] Instance M_bind : MBind M := λ A B f m w,
  match m w with
  | (Ok a, w') => f a w'
  | (Err e, w') => (Err e, w')
  end.

Definition raise {A} (e : exn) : M A := λ w, (Err e, w).

(** *** time and print

    The clock is idealised: a sleep takes exactly the time asked for and
    computing takes none, so a difference of two readings is a lower bound
    of the time a real run measures. *)
Definition time_time : M Q := λ w, (Ok (clock w), w).

Definition time_sleep (secs : Q) : M unit := λ w,
  (Ok tt, {| heap := heap w; clock := clock w + secs;
             stdout := stdout w; calls := calls w |}).

Definition print (line : string) : M unit := λ w,
  (Ok tt, {| heap := heap w; clock := clock w;
             stdout := stdout w ++ [line]; calls := calls w |}).

(** Ghost instrumentation: note that the function was entered. *)
Definition log_call (column : Z) : M unit := λ w,
  (Ok tt, {| heap := heap w; clock := clock w;
             stdout := stdout w; calls := calls w ++ [column] |}).

(** *** numpy arrays

    A matrix is a C-contiguous two-dimensional array: a buffer in the
    heap and a shape (rows, columns).  A one-dimensional slice is a view
    of the same buffer: an offset, a length and a stride. *)
Record ndarray := { base : positive; shape : nat * nat }.

Record view := { vbase : positive; voffset : nat; vlen : nat; vstride : nat }.

(** numpy's invariant on a live array: its buffer is allocated and holds
    rows * columns items. *)
Definition ndarray_ok (w : World) (data : ndarray) : bool :=
  match heap w !! base data with
  | Some buf => bool_decide (length buf = (fst (shape data) * snd (shape data))%nat)
  | None => false
  end.

(** An integer index on an axis of size [n]: negative indices count from
    the end; anything outside [-n, n) is out of bounds. *)
Definition normalize_index (n : nat) (i : Z) : option nat :=
  if bool_decide (0 ≤ i < Z.of_nat n) then Some (Z.to_nat i)
  else if bool_decide (- Z.of_nat n ≤ i < 0) then Some (Z.to_nat (i + Z.of_nat n))
  else None.

(** Column [j] of a row-major matrix: one item per row, a row apart. *)
Definition column_view (data : ndarray) (j : nat) : view :=
  {| vbase := base data; voffset := j;
     vlen := fst (shape data); vstride := snd (shape data) |}.

(** Before its bounds are looked at, a Python integer used as an index is
    converted to a C long.  From 2^63 up to 2^64 - 1 the conversion
    overflows; beyond that, and below -2^63, numpy does not take the
    integer for an index at all, which is an IndexError as well. *)
Definition conversion_error (i : Z) : option exn :=
  if bool_decide (- 2 ^ 63 ≤ i < 2 ^ 63) then None
  else if bool_decide (2 ^ 63 ≤ i < 2 ^ 64) then Some OverflowError
  else Some IndexError.

(** The exception for an index that is not within the bounds of its axis. *)
Definition index_error (i : Z) : exn := default IndexError (conversion_error i).

(** [data[:, column]] *)
Definition getitem_column (data : ndarray) (column : Z) : M view :=
  match normalize_index (snd (shape data)) column with
  | Some j => mret (column_view data j)
  | None => raise (index_error column)
  end.

(** [data[i, j]]: both indices are converted, the row first, before either
    is checked against its axis. *)
Definition getitem (data : ndarray) (i j : Z) : M F := λ w,
  match normalize_index (fst (shape data)) i, normalize_index (snd (shape data)) j with
  | Some i', Some j' =>
      match heap w !! base data ≫= (.!! (i' * snd (shape data) + j')%nat) with
      | Some x => (Ok x, w)
      | None => (Err MemoryFault, w)
      end
  | _, _ =>
      (Err (match conversion_error i with
            | Some e => e
            | None => index_error j
            end), w)
  end.

Definition view_addresses (v : view) : list nat :=
  (λ i, voffset v + i * vstride v)%nat <$> seq 0 (vlen v).

Definition view_items (v : view) : M (list F) := λ w,
  match heap w !! vbase v ≫= λ buf, mapM (buf !!.) (view_addresses v) with
  | Some xs => (Ok xs, w)
  | None => (Err MemoryFault, w)
  end.

(** [v.mean()]: the sum of the items over their count. *)
Definition view_mean (v : view) : M F :=
  xs ← view_items v;
  mret (true_divide (add_reduce xs) (of_count (vlen v))).

(** *** Code cell 4 *)
Definition calc_column_mean (data : ndarray) (column : Z) : M F :=
  _ ← log_call column;
  _ ← time_sleep (1 # 100);
  v ← getitem_column data column;
  view_mean v.

(** *** Loops *)
Definition range (n : nat) : list Z := Z.of_nat <$> seq 0 n.

(** [[f(x) for x in xs]]: the results are appended one by one. *)
Fixpoint for_append {A B} (f : A → M B) (xs : list A) (acc : list B) : M (list B) :=
  match xs with
  | [] => mret acc
  | x :: xs' => y ← f x; for_append f xs' (acc ++ [y])
  end.

Definition list_comprehension {A B} (f : A → M B) (xs : list A) : M (list B) :=
  for_append f xs [].

(** *** joblib *)

(** [delayed(f)(data, col)] is the call, not yet made. *)
Record task := { func : ndarray → Z → M F; args : ndarray * Z }.

Definition delayed (f : ndarray → Z → M F) (data : ndarray) (col : Z) : task :=
  {| func := f; args := (data, col) |}.

Definition call (t : task) : M F := func t (fst (args t)) (snd (args t)).

Definition advance (secs : Q) (w : World) : World :=
  {| heap := heap w; clock := clock w + secs;
     stdout := stdout w; calls := calls w |}.

(** Modelled from the spec: [Parallel(n_jobs=n)(tasks)], the entry point
    of the worker pool above.  joblib refuses zero jobs; with one job it
    makes the calls itself, in order; with more, each call runs in a worker
    process, on the worker's own copy of the world, and only its result
    comes back. *)
Definition Parallel (n_jobs : nat) (sch : schedule) (tasks : list task)
  : M (list F) :=
  match n_jobs with
  | O => raise ValueError
  | 1%nat => list_comprehension call tasks
  | _ => λ w, (pool_map (λ t, fst (call t w)) n_jobs (picks sch) tasks,
               advance (wall sch) w)
  end.

(** *** The two ways to compute the column means (lines 85 and 116/147) *)
Definition serial_column_means (data : ndarray) : M (list F) :=
  list_comprehension (calc_column_mean data) (range (snd (shape data))).

Definition parallel_column_means (n_jobs : nat) (sch : schedule) (data : ndarray)
  : M (list F) :=
  Parallel n_jobs sch
    (delayed calc_column_mean data <$> range (snd (shape data))).

Inductive strategy := Baseline | Pooled (n_jobs : nat).

Definition column_means (s : strategy) (sch : schedule) (data : ndarray)
  : M (list F) :=
  match s with
  | Baseline => serial_column_means data
  | Pooled n => parallel_column_means n sch data
  end.

(** *** Code cells 6, 7 and 8 *)
Definition cell_6 (data : ndarray) : M (list F) :=
  start ← time_time;
  column_means ← serial_column_means data;
  stop ← time_time;
  _ ← print "1 Processor";
  _ ← print ("Elapsed computation tiem: " +:+ format_2f (stop - start) +:+ " s");
  mret column_means.

Definition cell_7 (sch : schedule) (data : ndarray) : M (list F) :=
  start ← time_time;
  column_means ← parallel_column_means 2 sch data;
  stop ← time_time;
  _ ← print "2 Processors";
  _ ← print ("Elapsed computation tiem: " +:+ format_2f (stop - start) +:+ " s");
  mret column_means.

Definition cell_8 (sch : schedule) (data : ndarray) : M (list F) :=
  start ← time_time;
  column_means ← parallel_column_means 10 sch data;
  stop ← time_time;
  _ ← print "2 Processors";
  _ ← print ("Elapsed computation tiem: " +:+ format_2f (stop - start) +:+ " s");
  mret column_means.

(** *** What the specification calls the mean of a column

    The entries [data[0, j], ..., data[R-1, j]], read one by one, summed
    and divided by the row count [R]. *)
Definition column_entries (w : World) (data : ndarray) (j : nat) : list F :=
  omap (λ i, match fst (getitem data (Z.of_nat i) (Z.of_nat j) w) with
             | Ok x => Some x
             | Err _ => None
             end) (seq 0 (fst (shape data))).

Definition arithmetic_mean (w : World) (data : ndarray) (j : nat) : F :=
  true_divide (add_reduce (column_entries w data j)) (of_count (fst (shape data))).

(** The world one entry into [calc_column_mean] later: the clock has moved
    by the delay and the entry is logged. *)
Definition after_call (column : Z) (w : World) : World :=
  {| heap := heap w; clock := clock w + (1 # 100);
     stdout := stdout w; calls := calls w ++ [column] |}.

Definition after_calls (columns : list Z) (w : World) : World :=
  foldl (λ w' column, after_call column w') w columns.

(** The strategies the notebook can be run with: the baseline, or a pool
    of at least one worker. *)
Definition valid_strategy (s : strategy) : bool :=
  match s with
  | Baseline => true
  | Pooled n => bool_decide (1 ≤ n)%nat
  end.
End Notebook.

Arguments World : clear implicits.
Arguments M : clear implicits.

(** ** Generating the matrix, and the notebook as a whole *)
Section Generation.
Context {F : Type} `{Scalar F}.

(** numpy refuses a shape whose size in bytes, 8 per item and counted
    over the dimensions that are not zero, does not fit a C long. *)
Definition shape_fits (rows cols : nat) : bool :=
  bool_decide (8 * Z.of_nat (Nat.max rows 1) * Z.of_nat (Nat.max cols 1) < 2 ^ 63).

(** [np.random.rand(rows, cols)]: a new C-contiguous array of that shape at
    an address no live array uses, filled row by row with the samples the
    generator draws; a ValueError for a shape that is too big.  The samples
    come from outside, as the schedule of a pool does; that they lie in
    [0, 1) plays no role here. *)
Definition np_random_rand (samples : nat → F) (rows cols : nat) : M F ndarray := λ w,
  if shape_fits rows cols then
    let b := fresh (dom (heap w)) in
    (Ok {| base := b; shape := (rows, cols) |},
     {| heap := <[b := samples <$> seq 0 (rows * cols)]> (heap w);
        clock := clock w; stdout := stdout w; calls := calls w |})
  else (Err ValueError, w).

(** *** Code cell 5 *)
Definition cell_5 (samples : nat → F) : M F ndarray :=
  np_random_rand samples 100 1000.

(** The code cells in the order the notebook runs them.  Each of the
    cells 6, 7 and 8 assigns [column_means]; the three values are kept side
    by side. *)
Definition notebook (samples : nat → F) (sch7 sch8 : schedule)
  : M F (list F * list F * list F) :=
  data ← cell_5 samples;
  means6 ← cell_6 data;
  means7 ← cell_7 sch7 data;
  means8 ← cell_8 sch8 data;
  mret (means6, means7, means8).

(** The two lines a timed cell prints. *)
Definition report (label : string) (elapsed : Q) : list string :=
  [label; "Elapsed computation tiem: " +:+ format_2f elapsed +:+ " s"].

Definition after_report (label : string) (elapsed : Q) (w : World F) : World F :=
  {| heap := heap w; clock := clock w;
     stdout := stdout w ++ report label elapsed; calls := calls w |}.
End Generation.

(** ** A small matrix to run the notebook on

    Two rows, three columns, stored row by row at address 1:
    [[1, 2, 3], [4, 5, 6]]. *)
Definition world0 : World float :=
  {| heap := {[ 1%positive := [1; 2; 3; 4; 5; 6]%float ]};
     clock := 0; stdout := []; calls := [] |}.

Definition data0 : ndarray := {| base := 1; shape := (2%nat, 3%nat) |}.

(** Another matrix of the same shape, at address 2 of another world:
    [[7, 2, 8], [9, 5, 0]] is equal to [data0] in its middle column only. *)
Definition world1 : World float :=
  {| heap := {[ 2%positive := [7; 2; 8; 9; 5; 0]%float ]};
     clock := 1 # 2; stdout := []; calls := [] |}.

Definition data1 : ndarray := {| base := 2; shape := (2%nat, 3%nat) |}.

(** The world of [world0] later on: same heap, another time, output and log. *)
Definition world2 : World float :=
  {| heap := {[ 1%positive := [1; 2; 3; 4; 5; 6]%float ]};
     clock := 3; stdout := ["earlier output"]; calls := [5] |}.

Definition sched0 : schedule := {| picks := [1; 1; 0]%nat; wall := 1 # 50 |}.
Definition sched1 : schedule := {| picks := [0; 0; 7]%nat; wall := 175 # 100 |}.

(** A matrix without rows: shape (0, 2), an empty buffer at address 3. *)
Definition world3 : World float :=
  {| heap := {[ 3%positive := [] ]}; clock := 0; stdout := []; calls := [] |}.

Definition data3 : ndarray := {| base := 3; shape := (0%nat, 2%nat) |}.

(** * Properties *)

(** ** Indices *)
Section Indices.
Lemma normalize_index_nat n j :
  (j < n)%nat → normalize_index n (Z.of_nat j) = Some j.
Proof.
  intros Hj. unfold normalize_index.
  rewrite bool_decide_eq_true_2 by lia. by rewrite Nat2Z.id.
Qed.

Lemma normalize_index_inside n i :
  0 ≤ i < Z.of_nat n → normalize_index n i = Some (Z.to_nat i).
Proof.
  intros Hi. unfold normalize_index. by rewrite bool_decide_eq_true_2.
Qed.

Lemma normalize_index_wrap n i :
  - Z.of_nat n ≤ i < 0 → normalize_index n i = Some (Z.to_nat (Z.of_nat n + i)).
Proof.
  intros Hi. unfold normalize_index.
  rewrite bool_decide_eq_false_2 by lia.
  rewrite bool_decide_eq_true_2 by lia. by rewrite Z.add_comm.
Qed.

Lemma normalize_index_lt n i j : normalize_index n i = Some j → (j < n)%nat.
Proof.
  unfold normalize_index. repeat case_bool_decide; intros [= <-]; lia.
Qed.

Lemma normalize_index_None n i :
  normalize_index n i = None ↔ ¬ (- Z.of_nat n ≤ i < Z.of_nat n).
Proof.
  unfold normalize_index. repeat case_bool_decide; split; try done; lia.
Qed.

Lemma normalize_index_is_Some n i :
  is_Some (normalize_index n i) ↔ - Z.of_nat n ≤ i < Z.of_nat n.
Proof.
  rewrite <- not_eq_None_Some, normalize_index_None. split; [|tauto].
  intros Hn. destruct (decide (- Z.of_nat n ≤ i < Z.of_nat n)); tauto.
Qed.

Lemma index_error_long i : - 2 ^ 63 ≤ i < 2 ^ 63 → index_error i = IndexError.
Proof.
  intros Hi. unfold index_error, conversion_error.
  by rewrite bool_decide_eq_true_2.
Qed.

Lemma index_error_overflow i : 2 ^ 63 ≤ i < 2 ^ 64 → index_error i = OverflowError.
Proof.
  intros Hi. unfold index_error, conversion_error.
  rewrite bool_decide_eq_false_2 by lia. by rewrite bool_decide_eq_true_2.
Qed.
End Indices.

(** ** The pairwise sum does not depend on the depth it is given *)
Lemma pairwise_sum_depth d1 d2 xs :
  (length xs ≤ d1)%nat → (length xs ≤ d2)%nat →
  pairwise_sum d1 xs = pairwise_sum d2 xs.
Proof.
  revert d2 xs. induction d1 as [|d1 IH]; intros d2 xs H1 H2.
  - destruct xs; [|simpl in H1; lia]. by destruct d2.
  - destruct d2 as [|d2].
    { destruct xs; [done|simpl in H2; lia]. }
    cbn [pairwise_sum]. cbv zeta.
    destruct (length xs <? 8)%nat eqn:H8; [done|].
    destruct (length xs <=? 128)%nat eqn:H128; [done|].
    apply Nat.leb_gt in H128.
    set (n2 := (length xs / 2 - (length xs / 2) mod 8)%nat).
    assert (0 < n2 < length xs)%nat as Hn2.
    { pose proof (Nat.mod_upper_bound (length xs / 2) 8 ltac:(lia)).
      pose proof (Nat.Div0.div_lt_upper_bound (length xs) 2 (length xs) ltac:(lia)).
      assert (64 ≤ length xs / 2)%nat by (apply Nat.div_le_lower_bound; lia).
      unfold n2. lia. }
    f_equal; apply IH; rewrite ?length_take, ?length_drop; lia.
Qed.

(** ** The workload function *)
Section Workload.
Context {F : Type} `{Scalar F}.
Implicit Types (w : World F) (data : ndarray) (column : Z).

Lemma bind_run {A B} (m : M F A) (f : A → M F B) w :
  (m ≫= f) w =
  match m w with (Ok a, w') => f a w' | (Err e, w') => (Err e, w') end.
Proof. reflexivity. Qed.

(** [calc_column_mean], one world in, one outcome and one world out. *)
Lemma calc_column_mean_run data column w :
  calc_column_mean data column w =
  (match normalize_index (snd (shape data)) column with
   | None => Err (index_error column)
   | Some j =>
       match heap w !! base data ≫=
             λ buf, mapM (buf !!.) (view_addresses (column_view data j)) with
       | Some xs => Ok (true_divide (add_reduce xs) (of_count (fst (shape data))))
       | None => Err MemoryFault
       end
   end, after_call column w).
Proof.
  unfold calc_column_mean, getitem_column, view_mean, view_items, raise.
  unfold mbind, mret, M_bind, M_ret, log_call, time_sleep.
  destruct (normalize_index _ column) as [j|]; [|done].
  cbn [heap column_view vbase vlen].
  destruct (heap w !! base data) as [buf|]; [|done].
  cbn [option_bind]. by destruct (mapM _ _).
Qed.

Lemma calc_column_mean_world data column w :
  snd (calc_column_mean data column w) = after_call column w.
Proof. by rewrite calc_column_mean_run. Qed.

Lemma ndarray_ok_buffer w data :
  ndarray_ok w data = true →
  ∃ buf, heap w !! base data = Some buf ∧
         length buf = (fst (shape data) * snd (shape data))%nat.
Proof.
  unfold ndarray_ok. destruct (heap w !! base data) as [buf|]; [|done].
  intros Hlen%bool_decide_eq_true. eauto.
Qed.

(** On a live matrix the strided view of column [j] reads exactly the
    entries [data[i, j]], row after row. *)
Lemma column_items_rows w data buf j (rows : list nat) :
  heap w !! base data = Some buf →
  length buf = (fst (shape data) * snd (shape data))%nat →
  (j < snd (shape data))%nat →
  Forall (λ i, i < fst (shape data))%nat rows →
  mapM (buf !!.) ((λ i, j + i * snd (shape data))%nat <$> rows) =
  Some (omap (λ i, match fst (getitem data (Z.of_nat i) (Z.of_nat j) w) with
                   | Ok x => Some x
                   | Err _ => None
                   end) rows).
Proof.
  intros Hbuf Hlen Hj. induction 1 as [|i rows Hi _ IH]; [done|].
  destruct (lookup_lt_is_Some_2 buf (j + i * snd (shape data))) as [x Hx]; [nia|].
  cbn [fmap list_fmap mapM omap list_omap]. rewrite Hx. simpl. rewrite IH. simpl.
  unfold getitem. rewrite !normalize_index_nat by done. rewrite Hbuf. simpl.
  by rewrite (Nat.add_comm (i * _)), Hx.
Qed.

Lemma column_items w data j :
  ndarray_ok w data = true →
  (j < snd (shape data))%nat →
  heap w !! base data ≫=
    (λ buf, mapM (buf !!.) (view_addresses (column_view data j))) =
  Some (column_entries w data j).
Proof.
  intros (buf & Hbuf & Hlen)%ndarray_ok_buffer Hj. rewrite Hbuf. simpl.
  apply column_items_rows; [done..|].
  apply Forall_forall. intros i. rewrite list_elem_of_In, in_seq. lia.
Qed.

(** On a live matrix an index in [-C, C) gives the mean of the column it
    denotes. *)
Lemma calc_column_mean_ok w data column j :
  ndarray_ok w data = true →
  normalize_index (snd (shape data)) column = Some j →
  calc_column_mean data column w = (Ok (arithmetic_mean w data j), after_call column w).
Proof.
  intros Hok Hj. rewrite calc_column_mean_run, Hj.
  by rewrite column_items by eauto using normalize_index_lt.
Qed.

Lemma calc_column_mean_out_of_bounds w data column :
  normalize_index (snd (shape data)) column = None →
  calc_column_mean data column w = (Err (index_error column), after_call column w).
Proof. intros Hj. by rewrite calc_column_mean_run, Hj. Qed.
End Workload.

(** ** What depends on the heap only *)
Section Frame.
Context {F : Type} `{Scalar F}.
Implicit Types (w : World F) (data : ndarray) (column : Z).

Lemma heap_after_calls columns w : heap (after_calls columns w) = heap w.
Proof.
  revert w. induction columns as [|c columns IH]; intros w; [done|].
  unfold after_calls in *. simpl. by rewrite IH.
Qed.

Lemma calls_after_calls columns w :
  calls (after_calls columns w) = calls w ++ columns.
Proof.
  revert w. induction columns as [|c columns IH]; intros w.
  - by rewrite app_nil_r.
  - unfold after_calls in *. simpl. rewrite IH. simpl. by rewrite <- app_assoc.
Qed.

Lemma clock_after_calls columns w :
  (clock (after_calls columns w) ==
   clock w + inject_Z (Z.of_nat (length columns)) * (1 # 100))%Q.
Proof.
  revert w. induction columns as [|c columns IH]; intros w.
  - simpl. ring.
  - unfold after_calls in *. cbn [foldl length]. rewrite IH.
    rewrite Nat2Z.inj_succ. unfold Z.succ. rewrite inject_Z_plus. simpl. ring.
Qed.

Lemma after_calls_snoc columns column w :
  after_calls (columns ++ [column]) w = after_call column (after_calls columns w).
Proof. unfold after_calls. by rewrite foldl_app. Qed.

Lemma ndarray_ok_heap w1 w2 data :
  heap w1 = heap w2 → ndarray_ok w1 data = ndarray_ok w2 data.
Proof. unfold ndarray_ok. by intros ->. Qed.

Lemma getitem_heap w1 w2 data i j :
  heap w1 = heap w2 → fst (getitem data i j w1) = fst (getitem data i j w2).
Proof.
  intros Hh. unfold getitem. rewrite Hh.
  destruct (normalize_index (fst (shape data)) i); [|done].
  destruct (normalize_index (snd (shape data)) j); [|done].
  by destruct (_ ≫= _).
Qed.

Lemma column_entries_heap w1 w2 data j :
  heap w1 = heap w2 → column_entries w1 data j = column_entries w2 data j.
Proof.
  intros Hh. unfold column_entries.
  apply list_omap_ext, Forall_Forall2_diag, Forall_forall. intros i _.
  by rewrite (getitem_heap w1 w2).
Qed.
End Frame.

(** ** The list comprehension *)
Section Loops.
Context {F : Type} `{Scalar F}.
Implicit Types (w : World F) (data : ndarray) (column : Z).

Lemma arithmetic_mean_heap w1 w2 data j :
  heap w1 = heap w2 → arithmetic_mean w1 data j = arithmetic_mean w2 data j.
Proof. intros Hh. unfold arithmetic_mean. by rewrite (column_entries_heap w1 w2). Qed.

Lemma for_append_fmap {A B C} (g : A → B) (f : B → M F C) xs acc w :
  for_append f (g <$> xs) acc w = for_append (λ x, f (g x)) xs acc w.
Proof.
  revert acc w. induction xs as [|x xs IH]; intros acc w; [done|].
  cbn [fmap list_fmap for_append]. rewrite !bind_run.
  destruct (f (g x) w) as [[y|e] w']; [apply IH|done].
Qed.

(** A loop whose body never touches the heap does not touch it either. *)
Lemma for_append_heap {A B} (f : A → M F B) xs acc w :
  (∀ x w', heap (snd (f x w')) = heap w') →
  heap (snd (for_append f xs acc w)) = heap w.
Proof.
  intros Hf. revert acc w. induction xs as [|x xs IH]; intros acc w; [done|].
  simpl. rewrite bind_run. specialize (Hf x w).
  destruct (f x w) as [[y|e] w']; simpl in *; [|done]. by rewrite IH.
Qed.

(** Over in-range columns of a live matrix the comprehension makes its
    calls one after the other and appends the mean of each. *)
Lemma for_append_calc w data (js : list nat) acc :
  ndarray_ok w data = true →
  Forall (λ j, j < snd (shape data))%nat js →
  for_append (calc_column_mean data) (Z.of_nat <$> js) acc w =
  (Ok (acc ++ (arithmetic_mean w data <$> js)), after_calls (Z.of_nat <$> js) w).
Proof.
  intros Hok Hjs. revert acc w Hok.
  induction Hjs as [|j js Hj _ IH]; intros acc w Hok.
  - simpl. by rewrite app_nil_r.
  - cbn [fmap list_fmap for_append]. rewrite bind_run.
    rewrite (calc_column_mean_ok w data _ j) by auto using normalize_index_nat.
    rewrite IH by (by rewrite <- Hok; apply ndarray_ok_heap).
    rewrite <- app_assoc. simpl. do 4 f_equal.
    apply list_fmap_ext. intros _ j' _. by apply arithmetic_mean_heap.
Qed.

(** An out-of-range column anywhere in the list aborts the whole
    comprehension with the exception of the first such column: no list is
    returned. *)
Lemma for_append_out_of_bounds w data columns column acc :
  ndarray_ok w data = true →
  column ∈ columns →
  normalize_index (snd (shape data)) column = None →
  ∃ c, c ∈ columns ∧
       fst (for_append (calc_column_mean data) columns acc w) = Err (index_error c).
Proof.
  intros Hok Hin Hout. revert acc w Hok.
  induction columns as [|c columns IH]; intros acc w Hok.
  - by apply elem_of_nil in Hin.
  - simpl. rewrite bind_run.
    destruct (normalize_index (snd (shape data)) c) as [j|] eqn:Hc.
    + rewrite (calc_column_mean_ok w data c j) by done.
      destruct (IH ltac:(apply elem_of_cons in Hin as [->|Hin]; [congruence|done])
                  (acc ++ [arithmetic_mean w data j]) (after_call c w))
        as (c' & Hc' & Hfail); [by rewrite <- Hok; apply ndarray_ok_heap|].
      exists c'. split; [by apply elem_of_cons; right|done].
    + rewrite calc_column_mean_out_of_bounds by done.
      exists c. split; [by apply elem_of_cons; left|done].
Qed.

Lemma range_length n : length (range n) = n.
Proof. unfold range. by rewrite length_fmap, length_seq. Qed.

Lemma Forall_seq_lt n : Forall (λ j, j < n)%nat (seq 0 n).
Proof. apply Forall_forall. intros j. rewrite list_elem_of_In, in_seq. lia. Qed.

Lemma serial_column_means_run w data :
  ndarray_ok w data = true →
  serial_column_means data w =
  (Ok (arithmetic_mean w data <$> seq 0 (snd (shape data))),
   after_calls (range (snd (shape data))) w).
Proof.
  intros Hok. unfold serial_column_means, list_comprehension, range.
  by rewrite for_append_calc by auto using Forall_seq_lt.
Qed.
End Loops.

(** ** The worker pool returns the results in task order *)
Section PoolProperties.
Context {T R : Type}.
Variable exec : T → result R.
Implicit Types (p : pool T R) (tasks : list T) (rs : list R).

Lemma dispatch_unfinished n_jobs p :
  unfinished (dispatch n_jobs p) ≡ₚ unfinished p.
Proof.
  unfold unfinished, dispatch. simpl.
  set (free := (n_jobs - length (running p))%nat).
  rewrite <- (take_drop free (pending p)) at 3.
  rewrite (Permutation_app_comm (running p)), app_assoc.
  by rewrite (Permutation_app_comm (drop free _)).
Qed.

Lemma dispatch_busy n_jobs p :
  (1 ≤ n_jobs)%nat → unfinished p ≠ [] → running (dispatch n_jobs p) ≠ [].
Proof.
  intros Hn Hne. unfold unfinished, dispatch in *. simpl.
  destruct (running p) as [|rt run]; [|done].
  destruct (pending p) as [|pt pend]; [done|].
  simpl. destruct n_jobs as [|n]; [lia|]. done.
Qed.

Lemma dispatch_inv n_jobs tasks rs p :
  pool_inv tasks rs p → pool_inv tasks rs (dispatch n_jobs p).
Proof.
  intros [Hs Ht Hd]. split.
  - done.
  - intros i t. rewrite dispatch_unfinished. apply Ht.
  - intros i r Hr. destruct (Hd i r Hr) as [?|[t Hin]]; [by left|].
    right. exists t. by rewrite dispatch_unfinished.
Qed.

Lemma elem_of_delete_other {A} (l : list A) k x y :
  l !! k = Some y → x ∈ l → x ≠ y → x ∈ delete k l.
Proof.
  intros Hk Hin Hne. rewrite delete_take_drop.
  rewrite <- (take_drop_middle l k y Hk) in Hin.
  rewrite elem_of_app, elem_of_cons in Hin. rewrite elem_of_app. tauto.
Qed.

(** A round on a busy pool finishes exactly one task. *)
Lemma complete_inv pick tasks rs p :
  Forall2 (λ t r, exec t = Ok r) tasks rs →
  pool_inv tasks rs p →
  running p ≠ [] →
  ∃ p', complete exec pick p = Ok p' ∧ pool_inv tasks rs p' ∧
        S (length (unfinished p')) = length (unfinished p).
Proof.
  intros Hrs [Hs Ht Hd] Hbusy. unfold complete.
  set (k := (pick mod length (running p))%nat).
  assert (k < length (running p))%nat as Hk.
  { apply Nat.mod_upper_bound. by destruct (running p). }
  destruct (lookup_lt_is_Some_2 _ _ Hk) as [[i t] Hit]. rewrite Hit.
  assert (tasks !! i = Some t) as Hti.
  { apply Ht, elem_of_app. right. by eapply list_elem_of_lookup_2. }
  destruct (Forall2_lookup_l _ _ _ _ _ Hrs Hti) as (r & Hri & ->).
  eexists. split; [done|]. split; [split|]; simpl.
  - by rewrite length_insert.
  - intros i' t'. unfold unfinished. simpl. rewrite !elem_of_app.
    intros [?|?%list_elem_of_delete_inv]; apply Ht, elem_of_app; auto.
  - intros i' r' Hr'. destruct (decide (i' = i)) as [->|Hne].
    + left. rewrite Hri in Hr'. injection Hr' as ->.
      apply list_lookup_insert_eq. rewrite Hs. by eapply lookup_lt_Some.
    + destruct (Hd i' r' Hr') as [?|[t' Hin]].
      * left. by rewrite list_lookup_insert_ne.
      * right. exists t'. unfold unfinished in *. simpl.
        apply elem_of_app in Hin as [?|Hin]; apply elem_of_app; [by left|].
        right. eapply elem_of_delete_other; [done..|congruence].
  - unfold unfinished. simpl. rewrite !length_app, length_delete by eauto. lia.
Qed.

Lemma pool_loop_finishes n_jobs tasks rs rounds picks p :
  (1 ≤ n_jobs)%nat →
  Forall2 (λ t r, exec t = Ok r) tasks rs →
  pool_inv tasks rs p →
  length (unfinished p) = rounds →
  ∃ p', pool_loop exec n_jobs rounds picks p = Ok p' ∧
        pool_inv tasks rs p' ∧ unfinished p' = [].
Proof.
  intros Hn Hrs. revert picks p.
  induction rounds as [|rounds IH]; intros picks p Hinv Hlen.
  - exists p. split; [done|]. split; [done|]. by apply nil_length_inv.
  - simpl.
    destruct (complete_inv (hd 0%nat picks) tasks rs (dispatch n_jobs p))
      as (p1 & -> & Hinv1 & Hlen1); [done|by apply dispatch_inv| |].
    { apply dispatch_busy; [done|]. by destruct (unfinished p). }
    apply IH; [done|]. rewrite dispatch_unfinished in Hlen1. lia.
Qed.

Lemma pool_init_inv tasks rs :
  length tasks = length rs → pool_inv tasks rs (pool_init tasks).
Proof.
  intros Hlen. unfold pool_init. split; unfold unfinished; simpl.
  - by rewrite length_replicate.
  - intros i t. rewrite app_nil_r.
    intros (k & Hk)%list_elem_of_lookup_1.
    rewrite list_lookup_imap in Hk.
    destruct (tasks !! k) as [t'|] eqn:Ht'; simpl in Hk; [|done].
    by injection Hk as <- <-.
  - intros i r Hr. right.
    destruct (lookup_lt_is_Some_2 tasks i) as [t Ht].
    { rewrite Hlen. by eapply lookup_lt_Some. }
    exists t. rewrite app_nil_r. apply list_elem_of_lookup_2 with i.
    by rewrite list_lookup_imap, Ht.
Qed.

(** With at least one worker, and whatever the completion order, the pool
    returns the result of every task at the position of the task. *)
Lemma pool_map_ok n_jobs picks tasks rs :
  (1 ≤ n_jobs)%nat →
  Forall2 (λ t r, exec t = Ok r) tasks rs →
  pool_map exec n_jobs picks tasks = Ok rs.
Proof.
  intros Hn Hrs. unfold pool_map.
  pose proof (Forall2_length _ _ _ Hrs) as Hlen.
  destruct (pool_loop_finishes n_jobs tasks rs (length tasks) picks (pool_init tasks))
    as (p & -> & [Hs Ht Hd] & Hnil); [done..|by apply pool_init_inv| |].
  { unfold pool_init, unfinished. simpl. by rewrite app_nil_r, length_imap. }
  assert (mapM id (slots p) = Some rs) as ->; [|done].
  apply mapM_Some, Forall2_same_length_lookup_2; [congruence|].
  intros i x y Hx Hy. destruct (Hd i y Hy) as [Hdone|[t Hin]].
  - rewrite Hdone in Hx. by injection Hx as <-.
  - rewrite Hnil in Hin. by apply elem_of_nil in Hin.
Qed.
End PoolProperties.

(** ** The strategies *)
Section Strategies.
Context {F : Type} `{Scalar F}.
Implicit Types (w : World F) (data : ndarray) (column : Z).

(** The entries of a column, read one by one. *)
Lemma column_entries_spec w data j :
  ndarray_ok w data = true →
  (j < snd (shape data))%nat →
  length (column_entries w data j) = fst (shape data) ∧
  ∀ i, (i < fst (shape data))%nat →
    ∃ x, column_entries w data j !! i = Some x ∧
         getitem data (Z.of_nat i) (Z.of_nat j) w = (Ok x, w).
Proof.
  intros Hok Hj. pose proof (column_items w data j Hok Hj) as Hitems.
  destruct (ndarray_ok_buffer w data Hok) as (buf & Hbuf & Hlen).
  rewrite Hbuf in Hitems. simpl in Hitems. apply mapM_Some in Hitems.
  split.
  - rewrite <- (Forall2_length _ _ _ Hitems).
    unfold view_addresses. by rewrite length_fmap, length_seq.
  - intros i Hi.
    assert (view_addresses (column_view data j) !! i
            = Some (j + i * snd (shape data))%nat) as Haddr.
    { unfold view_addresses. rewrite list_lookup_fmap, lookup_seq_lt by done. done. }
    destruct (Forall2_lookup_l _ _ _ _ _ Hitems Haddr) as (x & Hx & Hload).
    exists x. split; [done|].
    unfold getitem. rewrite !normalize_index_nat by done. rewrite Hbuf. simpl.
    by rewrite (Nat.add_comm (i * _)), Hload.
Qed.

Lemma getitem_normalized w data i column j :
  (i < fst (shape data))%nat →
  normalize_index (snd (shape data)) column = Some j →
  getitem data (Z.of_nat i) column w = getitem data (Z.of_nat i) (Z.of_nat j) w.
Proof.
  intros Hi Hj. unfold getitem. rewrite Hj, (normalize_index_nat _ i) by done.
  by rewrite (normalize_index_nat _ j) by eauto using normalize_index_lt.
Qed.

Lemma tasks_results w data :
  ndarray_ok w data = true →
  Forall2 (λ t r, fst (call t w) = Ok r)
    (delayed calc_column_mean data <$> range (snd (shape data)))
    (arithmetic_mean w data <$> seq 0 (snd (shape data))).
Proof.
  intros Hok. unfold range. rewrite <- list_fmap_compose.
  apply Forall2_fmap, Forall_Forall2_diag.
  eapply Forall_impl; [apply Forall_seq_lt|]. intros j Hj. simpl.
  unfold call. simpl.
  by rewrite (calc_column_mean_ok w data _ j) by auto using normalize_index_nat.
Qed.

Lemma parallel_column_means_run w data n_jobs sch :
  ndarray_ok w data = true →
  (1 ≤ n_jobs)%nat →
  fst (parallel_column_means n_jobs sch data w) =
  Ok (arithmetic_mean w data <$> seq 0 (snd (shape data))).
Proof.
  intros Hok Hn. unfold parallel_column_means, Parallel.
  destruct n_jobs as [|[|n]]; [lia| |].
  - unfold list_comprehension. rewrite for_append_fmap.
    exact (f_equal fst (serial_column_means_run w data Hok)).
  - simpl. apply pool_map_ok; [lia|]. by apply tasks_results.
Qed.

Lemma column_means_run w data s sch :
  ndarray_ok w data = true →
  valid_strategy s = true →
  fst (column_means s sch data w) =
  Ok (arithmetic_mean w data <$> seq 0 (snd (shape data))).
Proof.
  intros Hok Hs. destruct s as [|n]; simpl.
  - by rewrite serial_column_means_run.
  - apply parallel_column_means_run; [done|]. by apply bool_decide_eq_true in Hs.
Qed.

Lemma serial_column_means_heap w data :
  heap (snd (serial_column_means data w)) = heap w.
Proof.
  apply for_append_heap. intros c w'. by rewrite calc_column_mean_world.
Qed.

Lemma parallel_column_means_heap w data n_jobs sch :
  heap (snd (parallel_column_means n_jobs sch data w)) = heap w.
Proof.
  unfold parallel_column_means, Parallel. destruct n_jobs as [|[|n]]; [done| |done].
  unfold list_comprehension. rewrite for_append_fmap.
  apply (serial_column_means_heap w data).
Qed.

Lemma column_means_heap w data s sch :
  heap (snd (column_means s sch data w)) = heap w.
Proof.
  destruct s; [apply serial_column_means_heap|apply parallel_column_means_heap].
Qed.

(** A timed cell prints after the computation and touches nothing else. *)
Lemma timed_heap (label : string) (m : M F (list F)) w :
  heap (snd (m w)) = heap w →
  heap (snd ((start ← time_time;
              column_means ← m;
              stop ← time_time;
              _ ← print label;
              _ ← print ("Elapsed computation tiem: "
                         +:+ format_2f (stop - start) +:+ " s");
              mret column_means) w)) = heap w.
Proof.
  rewrite bind_run. simpl. rewrite bind_run.
  by destruct (m w) as [[ms|e] w'].
Qed.
End Strategies.

(** * The claims *)
Section Claims.
Context {F : Type} `{Scalar F}.
Implicit Types (w : World F) (data : ndarray) (column : Z).

(** C1.  On every live matrix and for every worker count of at least one,
    and whatever the order in which the workers finish, the column means
    returned by [Parallel(n_jobs=W)] over the columns 0..C-1 are the
    column means returned by the sequential list comprehension: the same
    values at the same positions. *)
Theorem parallel_matches_serial w data n_jobs sch :
  ndarray_ok w data = true →
  (1 ≤ n_jobs)%nat →
  fst (parallel_column_means n_jobs sch data w) = fst (serial_column_means data w).
Proof.
  intros Hok Hn. rewrite parallel_column_means_run by done.
  by rewrite serial_column_means_run.
Qed.

(** C2.  On a live matrix and for a column index in [0, C),
    [calc_column_mean data column] returns the arithmetic mean of that
    column: the entries [data[i, column]] for the rows i = 0..R-1, summed
    and divided by the row count R. *)
Theorem calc_column_mean_arithmetic_mean w data column :
  ndarray_ok w data = true →
  0 ≤ column < Z.of_nat (snd (shape data)) →
  ∃ xs,
    length xs = fst (shape data) ∧
    (∀ i x, xs !! i = Some x → fst (getitem data (Z.of_nat i) column w) = Ok x) ∧
    fst (calc_column_mean data column w) =
      Ok (true_divide (add_reduce xs) (of_count (fst (shape data)))).
Proof.
  intros Hok Hc. set (j := Z.to_nat column).
  assert (normalize_index (snd (shape data)) column = Some j) as Hj
    by by apply normalize_index_inside.
  destruct (column_entries_spec w data j Hok) as [Hlen Hent]; [lia|].
  exists (column_entries w data j). split; [done|]. split.
  - intros i x Hx. pose proof (lookup_lt_Some _ _ _ Hx) as Hi.
    rewrite Hlen in Hi. destruct (Hent i Hi) as (x' & Hx' & Hget).
    rewrite (getitem_normalized w data _ column j Hi Hj), Hget. simpl. congruence.
  - by rewrite (calc_column_mean_ok w data column j).
Qed.

(** C3, as amended.  On a live matrix [calc_column_mean data column]
    succeeds exactly when the index lies in [-C, C).  For an index that
    fits a C long, from -2^63 up to 2^63 - 1, it fails with the bounds
    error exactly when the index lies outside [-C, C); an index from 2^63
    up to 2^64 - 1 outside the matrix fails with OverflowError instead.
    The failure is fatal: a list comprehension over columns that include
    such an index returns an error and no list, and the error is the
    bounds error when every column of the list fits a C long. *)
Theorem calc_column_mean_bounds_error w data column :
  ndarray_ok w data = true →
  (is_ok (fst (calc_column_mean data column w)) = true ↔
   - Z.of_nat (snd (shape data)) ≤ column < Z.of_nat (snd (shape data))) ∧
  (- 2 ^ 63 ≤ column < 2 ^ 63 →
   (fst (calc_column_mean data column w) = Err IndexError ↔
    ¬ (- Z.of_nat (snd (shape data)) ≤ column < Z.of_nat (snd (shape data))))) ∧
  (2 ^ 63 ≤ column < 2 ^ 64 →
   ¬ (- Z.of_nat (snd (shape data)) ≤ column < Z.of_nat (snd (shape data))) →
   fst (calc_column_mean data column w) = Err OverflowError) ∧
  (¬ (- Z.of_nat (snd (shape data)) ≤ column < Z.of_nat (snd (shape data))) →
   ∀ columns, column ∈ columns →
     is_ok (fst (list_comprehension (calc_column_mean data) columns w)) = false ∧
     (Forall (λ c, - 2 ^ 63 ≤ c < 2 ^ 63) columns →
      fst (list_comprehension (calc_column_mean data) columns w) = Err IndexError)).
Proof.
  intros Hok.
  destruct (normalize_index (snd (shape data)) column) as [j|] eqn:Hj.
  - assert (- Z.of_nat (snd (shape data)) ≤ column < Z.of_nat (snd (shape data)))
      as Hin by (apply normalize_index_is_Some; eauto).
    rewrite (calc_column_mean_ok w data column j) by done. simpl.
    split; [done|]. split; [intros _; split; [done|tauto]|]. split; tauto.
  - pose proof Hj as Hout%normalize_index_None.
    rewrite calc_column_mean_out_of_bounds by done. simpl.
    split; [split; [done|tauto]|].
    split; [intros Hlong; by rewrite index_error_long|].
    split; [intros Hover _; by rewrite index_error_overflow|].
    intros _ columns Hcol.
    destruct (for_append_out_of_bounds w data columns column [] Hok Hcol Hj)
      as (c & Hc & Hfail).
    unfold list_comprehension. rewrite Hfail. split; [done|].
    intros Hlong. rewrite index_error_long; [done|].
    by apply (proj1 (Forall_forall _ _) Hlong).
Qed.

(** C5.  On a live matrix with C columns, the baseline and every pool of
    at least one worker complete without error and return C column
    means: none when C = 0, exactly one when C = 1. *)
Theorem column_means_length w data s sch :
  ndarray_ok w data = true →
  valid_strategy s = true →
  ∃ ms,
    fst (column_means s sch data w) = Ok ms ∧
    length ms = snd (shape data) ∧
    (snd (shape data) = 0%nat → ms = []) ∧
    (snd (shape data) = 1%nat → ∃ m, ms = [m]).
Proof.
  intros Hok Hs. eexists. split; [by apply column_means_run|].
  rewrite length_fmap, length_seq. split; [done|].
  split; intros ->; simpl; eauto.
Qed.

(** C6.  The baseline enters [calc_column_mean] once per column, with the
    indices 0, 1, ..., C-1 in this order; call i is made in the world the
    first i calls left behind (one thread of control: the delays add up),
    and its result, the mean of column i, is element i of the list. *)
Theorem serial_calls_in_order w data :
  ndarray_ok w data = true →
  ∃ ms,
    serial_column_means data w = (Ok ms, after_calls (range (snd (shape data))) w) ∧
    calls (after_calls (range (snd (shape data))) w)
      = calls w ++ range (snd (shape data)) ∧
    length ms = snd (shape data) ∧
    (∀ i, (i < snd (shape data))%nat →
       calc_column_mean data (Z.of_nat i) (after_calls (range i) w)
         = (Ok (arithmetic_mean w data i), after_calls (range (S i)) w) ∧
       ms !! i = Some (arithmetic_mean w data i)) ∧
    (clock (after_calls (range (snd (shape data))) w)
       == clock w + inject_Z (Z.of_nat (snd (shape data))) * (1 # 100))%Q.
Proof.
  intros Hok. eexists. split; [by apply serial_column_means_run|].
  split; [apply calls_after_calls|].
  split; [by rewrite length_fmap, length_seq|]. split.
  - intros i Hi. split.
    + rewrite (calc_column_mean_ok _ data _ i).
      * f_equal; [f_equal; apply arithmetic_mean_heap, heap_after_calls|].
        unfold range. rewrite seq_S, fmap_app.
        change (Z.of_nat <$> [(0 + i)%nat]) with [Z.of_nat i].
        by rewrite after_calls_snoc.
      * rewrite <- Hok. apply ndarray_ok_heap, heap_after_calls.
      * by apply normalize_index_nat.
    + by rewrite list_lookup_fmap, lookup_seq_lt.
  - rewrite clock_after_calls. by rewrite range_length.
Qed.

Lemma column_means_heap_only s sch1 sch2 w1 w2 data :
  ndarray_ok w1 data = true →
  heap w1 = heap w2 →
  fst (column_means s sch1 data w1) = fst (column_means s sch2 data w2).
Proof.
  intros Hok1 Hh.
  assert (ndarray_ok w2 data = true) as Hok2
    by (by rewrite <- Hok1; symmetry; apply ndarray_ok_heap).
  assert (arithmetic_mean w1 data <$> seq 0 (snd (shape data))
          = arithmetic_mean w2 data <$> seq 0 (snd (shape data))) as Hms.
  { apply list_fmap_ext. intros _ j _. by apply arithmetic_mean_heap. }
  destruct s as [|[|n]].
  - by rewrite !(column_means_run _ data Baseline), Hms.
  - done.
  - by rewrite !(column_means_run _ data (Pooled (S n))), Hms.
Qed.

(** C7.  The column means are a function of the matrix alone: the same
    strategy on the same matrix gives the same list whatever the clock,
    the output so far and the order in which workers finish, and running
    it a second time, after the first, gives the same list again. *)
Theorem column_means_deterministic s sch1 sch2 w1 w2 data :
  ndarray_ok w1 data = true →
  heap w1 = heap w2 →
  fst (column_means s sch1 data w1) = fst (column_means s sch2 data w2) ∧
  fst (column_means s sch2 data (snd (column_means s sch1 data w1)))
    = fst (column_means s sch1 data w1).
Proof.
  intros Hok Hh. split; [by apply column_means_heap_only|].
  symmetry. apply column_means_heap_only; [done|].
  symmetry. apply column_means_heap.
Qed.

(** C8.  Nothing writes to the matrix: [calc_column_mean], each strategy
    and each of the three cells leave every buffer of the heap as it was,
    so the three cells run one after the other all start from the same
    matrix. *)
Theorem matrix_never_mutated w data column s sch sch' :
  heap (snd (calc_column_mean data column w)) = heap w ∧
  heap (snd (column_means s sch data w)) = heap w ∧
  heap (snd (cell_6 data w)) = heap w ∧
  heap (snd (cell_7 sch data w)) = heap w ∧
  heap (snd (cell_8 sch data w)) = heap w ∧
  heap (snd (cell_7 sch data (snd (cell_6 data w)))) = heap w ∧
  heap (snd (cell_8 sch' data (snd (cell_7 sch data (snd (cell_6 data w))))))
    = heap w.
Proof.
  assert (∀ w', heap (snd (cell_6 data w')) = heap w') as H6.
  { intros w'. apply timed_heap, serial_column_means_heap. }
  assert (∀ sc w', heap (snd (cell_7 sc data w')) = heap w') as H7.
  { intros sc w'. apply timed_heap, parallel_column_means_heap. }
  assert (∀ sc w', heap (snd (cell_8 sc data w')) = heap w') as H8.
  { intros sc w'. apply timed_heap, parallel_column_means_heap. }
  split; [by rewrite calc_column_mean_world|].
  split; [apply column_means_heap|].
  rewrite !H8, !H7, !H6. done.
Qed.

(** C9.  On a live matrix a negative index c with -C <= c < 0 is not a
    bounds error: [calc_column_mean data c] returns the arithmetic mean of
    column C + c. *)
Theorem calc_column_mean_wraps_negative w data column :
  ndarray_ok w data = true →
  - Z.of_nat (snd (shape data)) ≤ column < 0 →
  fst (calc_column_mean data column w)
    = Ok (arithmetic_mean w data (Z.to_nat (Z.of_nat (snd (shape data)) + column))) ∧
  fst (calc_column_mean data column w)
    = fst (calc_column_mean data (Z.of_nat (snd (shape data)) + column) w).
Proof.
  intros Hok Hc.
  rewrite (calc_column_mean_ok w data column _ Hok (normalize_index_wrap _ _ Hc)).
  split; [done|].
  by rewrite (calc_column_mean_ok w data (_ + column)
                (Z.to_nat (Z.of_nat (snd (shape data)) + column)))
    by (try apply normalize_index_inside; done || lia).
Qed.

(** C10.  The mean returned for a column depends on that column only: two
    live matrices of the same shape whose entries agree in column
    [column], row by row, give the same result, whatever their other
    columns hold. *)
Theorem calc_column_mean_column_only w1 w2 data1 data2 column :
  ndarray_ok w1 data1 = true →
  ndarray_ok w2 data2 = true →
  shape data1 = shape data2 →
  (∀ i, fst (getitem data1 i column w1) = fst (getitem data2 i column w2)) →
  fst (calc_column_mean data1 column w1) = fst (calc_column_mean data2 column w2).
Proof.
  intros Hok1 Hok2 Hshape Hagree.
  destruct (normalize_index (snd (shape data1)) column) as [j|] eqn:Hj1;
    pose proof Hj1 as Hj2; rewrite Hshape in Hj2.
  - rewrite (calc_column_mean_ok w1 data1 column j) by done.
    rewrite (calc_column_mean_ok w2 data2 column j) by done.
    simpl. f_equal. unfold arithmetic_mean, column_entries. rewrite <- Hshape.
    do 2 f_equal. apply list_omap_ext, Forall_Forall2_diag, Forall_forall.
    intros i Hi. apply list_elem_of_In, in_seq in Hi.
    rewrite <- (getitem_normalized w1 data1 _ column j) by (done || lia).
    rewrite <- (getitem_normalized w2 data2 _ column j)
      by (done || rewrite <- Hshape; lia).
    by rewrite Hagree.
  - rewrite (calc_column_mean_out_of_bounds w1 data1) by done.
    by rewrite (calc_column_mean_out_of_bounds w2 data2) by done.
Qed.
End Claims.

(** ** What the cells print *)
Section Output.
Context {F : Type} `{Scalar F}.
Implicit Types (w : World F) (data : ndarray).

Lemma timed_stdout (label : string) (m : M F (list F)) w ms w1 :
  m w = (Ok ms, w1) →
  stdout (snd ((start ← time_time;
                column_means ← m;
                stop ← time_time;
                _ ← print label;
                _ ← print ("Elapsed computation tiem: "
                           +:+ format_2f (stop - start) +:+ " s");
                mret column_means) w)) =
  stdout w1 ++ [label; "Elapsed computation tiem: "
                       +:+ format_2f (clock w1 - clock w) +:+ " s"].
Proof.
  intros Hm. rewrite bind_run. simpl. rewrite bind_run, Hm. simpl.
  by rewrite <- app_assoc.
Qed.

Lemma parallel_column_means_pool w data n_jobs sch :
  ndarray_ok w data = true →
  (2 ≤ n_jobs)%nat →
  parallel_column_means n_jobs sch data w =
  (Ok (arithmetic_mean w data <$> seq 0 (snd (shape data))), advance (wall sch) w).
Proof.
  intros Hok Hn.
  pose proof (parallel_column_means_run w data n_jobs sch Hok) as Hrun.
  unfold parallel_column_means, Parallel in *.
  destruct n_jobs as [|[|n]]; [lia..|]. simpl in *. rewrite Hrun by lia. done.
Qed.

(** On every live matrix the cell that starts ten workers reports two. *)
Lemma cell_8_stdout w data sch :
  ndarray_ok w data = true →
  stdout (snd (cell_8 sch data w)) =
  stdout w ++ ["2 Processors";
               "Elapsed computation tiem: "
               +:+ format_2f (clock w + wall sch - clock w) +:+ " s"].
Proof.
  intros Hok. unfold cell_8.
  by rewrite (timed_stdout _ _ w _ _ (parallel_column_means_pool w data 10 sch Hok ltac:(lia))).
Qed.
End Output.

(** C4.  The three cells run on the matrix [[1, 2, 3], [4, 5, 6]]: each
    prints a label and the elapsed time with two decimals, but the second
    line reads "tiem" for "time" in all three, and the cell that starts ten
    workers prints the label of the two-worker cell. *)
Theorem cells_print :
  stdout (snd (cell_6 data0 world0))
    = ["1 Processor"; "Elapsed computation tiem: 0.03 s"] ∧
  stdout (snd (cell_7 sched0 data0 world0))
    = ["2 Processors"; "Elapsed computation tiem: 0.02 s"] ∧
  stdout (snd (cell_8 sched1 data0 world0))
    = ["2 Processors"; "Elapsed computation tiem: 1.75 s"].
Proof. by vm_compute. Qed.

(** ** The claims at work on the small matrix *)

Lemma parallel_matches_serial_witness :
  ndarray_ok world0 data0 = true ∧ (1 ≤ 10)%nat ∧
  fst (parallel_column_means 10 sched0 data0 world0)
    = fst (serial_column_means data0 world0).
Proof.
  split; [reflexivity|]. split; [lia|].
  apply (parallel_matches_serial world0 data0 10%nat sched0); [reflexivity|lia].
Defined.

Lemma calc_column_mean_arithmetic_mean_witness :
  ndarray_ok world0 data0 = true ∧ 0 ≤ 1 < Z.of_nat (snd (shape data0)) ∧
  ∃ xs,
    length xs = fst (shape data0) ∧
    (∀ i x, xs !! i = Some x → fst (getitem data0 (Z.of_nat i) 1 world0) = Ok x) ∧
    fst (calc_column_mean data0 1 world0) =
      Ok (true_divide (add_reduce xs) (of_count (fst (shape data0)))).
Proof.
  split; [reflexivity|]. split; [simpl; lia|].
  apply (calc_column_mean_arithmetic_mean world0 data0 1); [reflexivity|simpl; lia].
Defined.

(** C3 as the specification has it fails at index -1 of a three-column
    matrix: the index is outside [0, 3), and the call returns 4.5, the mean
    of the last column. *)
Lemma negative_index_is_no_bounds_error :
  ¬ (fst (calc_column_mean data0 (-1) world0) = Err IndexError ↔
     ¬ (0 ≤ -1 < Z.of_nat (snd (shape data0)))).
Proof.
  intros [_ Hfail].
  assert (fst (calc_column_mean data0 (-1) world0) = Err IndexError) as Herr
    by (apply Hfail; lia).
  vm_compute in Herr. discriminate Herr.
Qed.

(** An index of 2^63 is refused before any bound is looked at. *)
Example index_too_large_for_a_long :
  fst (calc_column_mean data0 (2 ^ 63) world0) = Err OverflowError ∧
  fst (calc_column_mean data0 3 world0) = Err IndexError ∧
  fst (calc_column_mean data0 (-4) world0) = Err IndexError.
Proof. by vm_compute. Qed.

Lemma calc_column_mean_bounds_error_witness :
  ndarray_ok world0 data0 = true ∧
  (is_ok (fst (calc_column_mean data0 3 world0)) = true ↔
   - Z.of_nat (snd (shape data0)) ≤ 3 < Z.of_nat (snd (shape data0))) ∧
  (- 2 ^ 63 ≤ 3 < 2 ^ 63 →
   (fst (calc_column_mean data0 3 world0) = Err IndexError ↔
    ¬ (- Z.of_nat (snd (shape data0)) ≤ 3 < Z.of_nat (snd (shape data0))))) ∧
  (2 ^ 63 ≤ 3 < 2 ^ 64 →
   ¬ (- Z.of_nat (snd (shape data0)) ≤ 3 < Z.of_nat (snd (shape data0))) →
   fst (calc_column_mean data0 3 world0) = Err OverflowError) ∧
  (¬ (- Z.of_nat (snd (shape data0)) ≤ 3 < Z.of_nat (snd (shape data0))) →
   ∀ columns, 3 ∈ columns →
     is_ok (fst (list_comprehension (calc_column_mean data0) columns world0)) = false ∧
     (Forall (λ c, - 2 ^ 63 ≤ c < 2 ^ 63) columns →
      fst (list_comprehension (calc_column_mean data0) columns world0)
        = Err IndexError)).
Proof.
  split; [reflexivity|].
  apply (calc_column_mean_bounds_error world0 data0 3). reflexivity.
Defined.

Lemma column_means_length_witness :
  ndarray_ok world0 data0 = true ∧ valid_strategy (Pooled 2) = true ∧
  ∃ ms,
    fst (column_means (Pooled 2) sched0 data0 world0) = Ok ms ∧
    length ms = snd (shape data0) ∧
    (snd (shape data0) = 0%nat → ms = []) ∧
    (snd (shape data0) = 1%nat → ∃ m, ms = [m]).
Proof.
  split; [reflexivity|]. split; [reflexivity|].
  apply (column_means_length world0 data0 (Pooled 2) sched0); reflexivity.
Defined.

Lemma serial_calls_in_order_witness :
  ndarray_ok world0 data0 = true ∧
  ∃ ms,
    serial_column_means data0 world0
      = (Ok ms, after_calls (range (snd (shape data0))) world0) ∧
    calls (after_calls (range (snd (shape data0))) world0)
      = calls world0 ++ range (snd (shape data0)) ∧
    length ms = snd (shape data0) ∧
    (∀ i, (i < snd (shape data0))%nat →
       calc_column_mean data0 (Z.of_nat i) (after_calls (range i) world0)
         = (Ok (arithmetic_mean world0 data0 i), after_calls (range (S i)) world0) ∧
       ms !! i = Some (arithmetic_mean world0 data0 i)) ∧
    (clock (after_calls (range (snd (shape data0))) world0)
       == clock world0 + inject_Z (Z.of_nat (snd (shape data0))) * (1 # 100))%Q.
Proof.
  split; [reflexivity|].
  apply (serial_calls_in_order world0 data0). reflexivity.
Defined.

Lemma column_means_deterministic_witness :
  ndarray_ok world0 data0 = true ∧ heap world0 = heap world2 ∧
  fst (column_means (Pooled 2) sched0 data0 world0)
    = fst (column_means (Pooled 2) sched1 data0 world2) ∧
  fst (column_means (Pooled 2) sched1 data0
         (snd (column_means (Pooled 2) sched0 data0 world0)))
    = fst (column_means (Pooled 2) sched0 data0 world0).
Proof.
  split; [reflexivity|]. split; [reflexivity|].
  apply (column_means_deterministic (Pooled 2) sched0 sched1 world0 world2 data0);
    reflexivity.
Defined.

Lemma calc_column_mean_wraps_negative_witness :
  ndarray_ok world0 data0 = true ∧
  - Z.of_nat (snd (shape data0)) ≤ -1 < 0 ∧
  fst (calc_column_mean data0 (-1) world0)
    = Ok (arithmetic_mean world0 data0 (Z.to_nat (Z.of_nat (snd (shape data0)) + -1))) ∧
  fst (calc_column_mean data0 (-1) world0)
    = fst (calc_column_mean data0 (Z.of_nat (snd (shape data0)) + -1) world0).
Proof.
  split; [reflexivity|]. split; [simpl; lia|].
  apply (calc_column_mean_wraps_negative world0 data0 (-1)); [reflexivity|simpl; lia].
Defined.

Lemma middle_columns_agree i :
  fst (getitem data0 i 1 world0) = fst (getitem data1 i 1 world1).
Proof.
  unfold getitem. simpl.
  destruct (normalize_index 2 i) as [[|[|k]]|]; reflexivity.
Qed.

Lemma calc_column_mean_column_only_witness :
  ndarray_ok world0 data0 = true ∧ ndarray_ok world1 data1 = true ∧
  shape data0 = shape data1 ∧
  (∀ i, fst (getitem data0 i 1 world0) = fst (getitem data1 i 1 world1)) ∧
  fst (calc_column_mean data0 1 world0) = fst (calc_column_mean data1 1 world1).
Proof.
  split; [reflexivity|]. split; [reflexivity|]. split; [reflexivity|].
  split; [exact middle_columns_agree|].
  apply (calc_column_mean_column_only world0 world1 data0 data1 1);
    [reflexivity..|exact middle_columns_agree].
Defined.

(** * Beyond the claims *)

(** ** The generator *)
Section GenerationProperties.
Context {F : Type} `{Scalar F}.
Implicit Types (w : World F) (data : ndarray) (column : Z).

(** For a shape that fits, [np.random.rand(rows, cols)] returns a live
    array of that shape whose entry (i, j) is sample number i * cols + j,
    and leaves the clock and the output alone. *)
Lemma np_random_rand_live (samples : nat → F) rows cols w :
  shape_fits rows cols = true →
  ∃ data w',
    np_random_rand samples rows cols w = (Ok data, w') ∧
    shape data = (rows, cols) ∧
    ndarray_ok w' data = true ∧
    (∀ i j, (i < rows)%nat → (j < cols)%nat →
       getitem data (Z.of_nat i) (Z.of_nat j) w'
         = (Ok (samples (i * cols + j)%nat), w')) ∧
    clock w' = clock w ∧ stdout w' = stdout w.
Proof.
  intros Hfits. unfold np_random_rand. rewrite Hfits.
  eexists _, _. split; [reflexivity|]. split; [done|]. split; [|split; [|done]].
  - unfold ndarray_ok. cbn [heap base shape fst snd]. rewrite lookup_insert_eq.
    apply bool_decide_eq_true. by rewrite length_fmap, length_seq.
  - intros i j Hi Hj. unfold getitem. cbn [heap base shape fst snd].
    rewrite !normalize_index_nat by done. rewrite lookup_insert_eq.
    cbn [mbind option_bind].
    rewrite list_lookup_fmap, lookup_seq_lt by nia. done.
Qed.
End GenerationProperties.

(** ** The timed cells *)
Section CellProperties.
Context {F : Type} `{Scalar F}.
Implicit Types (w : World F) (data : ndarray) (column : Z).

Lemma timed_run (label : string) (m : M F (list F)) w ms w1 :
  m w = (Ok ms, w1) →
  (start ← time_time;
   column_means ← m;
   stop ← time_time;
   _ ← print label;
   _ ← print ("Elapsed computation tiem: " +:+ format_2f (stop - start) +:+ " s");
   mret column_means) w
  = (Ok ms, after_report label (clock w1 - clock w) w1).
Proof.
  intros Hm. rewrite bind_run. simpl. rewrite bind_run, Hm.
  unfold after_report, report.
  rewrite (cons_middle label (stdout w1) [_]), app_assoc. reflexivity.
Qed.

Lemma stdout_after_calls columns w : stdout (after_calls columns w) = stdout w.
Proof.
  revert w. induction columns as [|c columns IH]; intros w; [done|].
  unfold after_calls in *. simpl. by rewrite IH.
Qed.

Lemma ndarray_ok_after_report label elapsed w data :
  ndarray_ok (after_report label elapsed w) data = ndarray_ok w data.
Proof. done. Qed.

(** X3.  Code cell 6 on a live matrix with C columns returns the C column
    means, in column order, and appends exactly two lines to the output:
    "1 Processor" and "Elapsed computation tiem: <t> s", where <t> is
    the time between the two readings of the clock, with two decimals.
    It enters [calc_column_mean] for the columns 0..C-1 and leaves the
    matrix alone. *)
Theorem cell_6_run w data :
  ndarray_ok w data = true →
  ∃ w',
    cell_6 data w = (Ok (arithmetic_mean w data <$> seq 0 (snd (shape data))), w') ∧
    stdout w' = stdout w ++ ["1 Processor";
                             "Elapsed computation tiem: "
                             +:+ format_2f (clock w' - clock w) +:+ " s"] ∧
    calls w' = calls w ++ range (snd (shape data)) ∧
    heap w' = heap w.
Proof.
  intros Hok. eexists. split.
  - unfold cell_6. apply timed_run. by apply serial_column_means_run.
  - cbn [after_report stdout calls heap clock report].
    split; [by rewrite stdout_after_calls|].
    split; [apply calls_after_calls|apply heap_after_calls].
Qed.

(** X4.  Code cell 7 on a live matrix returns the same C column means as
    the sequential cell, whatever the order in which its two workers
    finish, and appends exactly "2 Processors" and "Elapsed computation
    tiem: <t> s", where <t> is the time the dispatch took. *)
Theorem cell_7_run w data sch :
  ndarray_ok w data = true →
  ∃ w',
    cell_7 sch data w = (Ok (arithmetic_mean w data <$> seq 0 (snd (shape data))), w') ∧
    fst (cell_7 sch data w) = fst (cell_6 data w) ∧
    stdout w' = stdout w ++ ["2 Processors";
                             "Elapsed computation tiem: "
                             +:+ format_2f (clock w' - clock w) +:+ " s"] ∧
    (clock w' == clock w + wall sch)%Q ∧
    heap w' = heap w.
Proof.
  intros Hok. destruct (cell_6_run w data Hok) as (w6 & H6 & _).
  assert (cell_7 sch data w
          = (Ok (arithmetic_mean w data <$> seq 0 (snd (shape data))),
             after_report "2 Processors" (clock (advance (wall sch) w) - clock w)
               (advance (wall sch) w))) as H7.
  { unfold cell_7. apply timed_run. apply parallel_column_means_pool; [done|lia]. }
  eexists. split; [exact H7|]. rewrite H7, H6.
  cbn [after_report advance stdout calls heap clock report fst].
  split; [done|]. split; [done|]. split; [reflexivity|done].
Qed.

(** X5.  On a live matrix the cell that starts ten workers cannot be told
    from the cell that starts two: under the same schedule both return the
    same means and leave the same world, output included. *)
Theorem cell_8_same_as_cell_7 w data sch :
  ndarray_ok w data = true →
  cell_8 sch data w = cell_7 sch data w.
Proof.
  intros Hok. unfold cell_8, cell_7.
  rewrite (timed_run "2 Processors" (parallel_column_means 10 sch data) w _ _
             (parallel_column_means_pool w data 10 sch Hok ltac:(lia))).
  by rewrite (timed_run "2 Processors" (parallel_column_means 2 sch data) w _ _
                (parallel_column_means_pool w data 2 sch Hok ltac:(lia))).
Qed.

(** X7.  A matrix without rows is no error: for every index in [-C, C)
    [calc_column_mean] returns the empty sum divided by a count of zero
    (nan for float64). *)
Theorem calc_column_mean_no_rows w data column :
  ndarray_ok w data = true →
  fst (shape data) = 0%nat →
  - Z.of_nat (snd (shape data)) ≤ column < Z.of_nat (snd (shape data)) →
  fst (calc_column_mean data column w)
    = Ok (true_divide (add_reduce []) (of_count 0)).
Proof.
  intros Hok Hrows Hc.
  destruct (proj2 (normalize_index_is_Some _ _) Hc) as [j Hj].
  rewrite (calc_column_mean_ok w data column j) by done.
  unfold arithmetic_mean, column_entries. by rewrite Hrows.
Qed.
End CellProperties.

(** ** The notebook from top to bottom *)
Section NotebookProperties.
Context {F : Type} `{Scalar F}.
Implicit Types (w : World F) (data : ndarray).

Lemma arithmetic_means_heap w1 w2 data n :
  heap w1 = heap w2 →
  arithmetic_mean w1 data <$> seq 0 n = arithmetic_mean w2 data <$> seq 0 n.
Proof.
  intros Hh. apply list_fmap_ext. intros _ j _. by apply arithmetic_mean_heap.
Qed.

(** X6.  Run from top to bottom in any world, with any samples and any
    two schedules, the notebook raises nothing; it generates a live
    100 x 1000 matrix; the three cells assign the same list of 1000 column
    means, element j being the mean of column j; and the output grows by
    six lines: the report of cell 6 labelled "1 Processor", then two
    reports labelled "2 Processors". *)
Theorem notebook_run (samples : nat → F) sch7 sch8 w :
  ∃ data ms w' t6 t7 t8,
    notebook samples sch7 sch8 w = (Ok (ms, ms, ms), w') ∧
    shape data = (100, 1000)%nat ∧
    ndarray_ok w' data = true ∧
    length ms = 1000%nat ∧
    (∀ j, (j < 1000)%nat → ms !! j = Some (arithmetic_mean w' data j)) ∧
    stdout w' = stdout w ++ report "1 Processor" t6
                         ++ report "2 Processors" t7
                         ++ report "2 Processors" t8.
Proof.
  destruct (np_random_rand_live samples 100 1000 w eq_refl)
    as (data & w5 & Hgen & Hshape & Hok5 & _ & _ & Hout5).
  destruct (cell_6_run w5 data Hok5) as (w6 & H6 & Hout6 & _ & Hheap6).
  assert (ndarray_ok w6 data = true) as Hok6
    by (by rewrite <- Hok5; apply ndarray_ok_heap).
  destruct (cell_7_run w6 data sch7 Hok6) as (w7 & H7 & _ & Hout7 & _ & Hheap7).
  assert (ndarray_ok w7 data = true) as Hok7
    by (by rewrite <- Hok6; apply ndarray_ok_heap).
  destruct (cell_7_run w7 data sch8 Hok7) as (w8 & H8 & _ & Hout8 & _ & Hheap8).
  rewrite <- (cell_8_same_as_cell_7 w7 data sch8 Hok7) in H8.
  assert (heap w8 = heap w5) as Hheap by congruence.
  rewrite (arithmetic_means_heap w7 w8) in H8 by done.
  rewrite (arithmetic_means_heap w6 w8) in H7 by congruence.
  rewrite (arithmetic_means_heap w5 w8) in H6 by done.
  exists data, (arithmetic_mean w8 data <$> seq 0 (snd (shape data))), w8.
  exists (clock w6 - clock w5)%Q, (clock w7 - clock w6)%Q, (clock w8 - clock w7)%Q.
  split; [|split; [done|split; [|split; [|split]]]].
  - unfold notebook, cell_5. rewrite bind_run, Hgen, bind_run, H6, bind_run, H7.
    by rewrite bind_run, H8.
  - rewrite <- Hok5. by apply ndarray_ok_heap.
  - rewrite length_fmap, length_seq. by rewrite Hshape.
  - intros j Hj. rewrite Hshape.
    by rewrite list_lookup_fmap, lookup_seq_lt.
  - rewrite Hout8, Hout7, Hout6, Hout5. unfold report.
    by rewrite <- !app_assoc.
Qed.
End NotebookProperties.

(** ** Two decimals *)

Lemma round_half_even_nearest (q : Q) :
  (Qabs (inject_Z (round_half_even q) - q) <= 1 # 2)%Q.
Proof.
  destruct q as [n d]. apply Qabs_Qle_condition. unfold round_half_even.
  cbn [Qnum Qden].
  pose proof (Z.div_mod n (Z.pos d) ltac:(lia)) as Hdm.
  pose proof (Z.mod_pos_bound n (Z.pos d) ltac:(lia)) as Hr.
  set (fl := n / Z.pos d) in *. set (r := n mod Z.pos d) in *.
  destruct (Z.compare_spec (2 * r) (Z.pos d)) as [Heq|Hlt|Hgt];
    [destruct (Z.even fl)|..];
    unfold Qle, Qminus, Qplus, Qopp, inject_Z; cbn [Qnum Qden]; split; nia.
Qed.

Lemma round_half_even_nonneg (q : Q) : (0 <= q)%Q → 0 ≤ round_half_even q.
Proof.
  destruct q as [n d]. unfold Qle, round_half_even. cbn [Qnum Qden].
  intros Hn. assert (0 ≤ n) as Hn' by lia.
  pose proof (Z.div_pos n (Z.pos d) Hn' ltac:(lia)).
  destruct (_ ?= _); [destruct (Z.even _)|..]; lia.
Qed.

(** X8.  The number a cell prints is the elapsed time rounded to the
    nearest hundredth: the count of hundredths that ['{:.2f}'] prints is
    not negative, is within half a hundredth of the absolute value of the
    time, and its last two digits are the two decimals printed. *)
Theorem format_2f_nearest_hundredth (x : Q) :
  0 ≤ round_half_even (Qabs x * 100) ∧
  (Qabs (inject_Z (round_half_even (Qabs x * 100)) / 100 - Qabs x) <= 1 # 200)%Q ∧
  format_2f x =
    (if Qnum x <? 0 then "-" else "")
    +:+ pretty (round_half_even (Qabs x * 100) / 100) +:+ "."
    +:+ pretty (round_half_even (Qabs x * 100) mod 100 / 10)
    +:+ pretty (round_half_even (Qabs x * 100) mod 10) ∧
  0 ≤ round_half_even (Qabs x * 100) mod 100 / 10 ≤ 9 ∧
  0 ≤ round_half_even (Qabs x * 100) mod 10 ≤ 9.
Proof.
  set (c := round_half_even (Qabs x * 100)).
  split; [|split; [|split; [done|]]].
  - apply round_half_even_nonneg. apply Qmult_le_0_compat; [apply Qabs_nonneg|done].
  - pose proof (round_half_even_nearest (Qabs x * 100)) as Hn. fold c in Hn.
    assert (inject_Z c / 100 - Qabs x == (inject_Z c - Qabs x * 100) * (1 # 100))%Q
      as -> by field.
    rewrite Qabs_Qmult.
    assert (1 # 200 == (1 # 2) * (1 # 100))%Q as -> by reflexivity.
    by apply Qmult_le_compat_r.
  - pose proof (Z.mod_pos_bound c 100 ltac:(lia)).
    pose proof (Z.mod_pos_bound c 10 ltac:(lia)).
    split; [|lia]. split; [apply Z.div_pos; lia|].
    apply Z.lt_succ_r, Z.div_lt_upper_bound; lia.
Qed.

(** ** The further properties at work on the small matrices *)

Lemma cell_6_run_witness :
  ndarray_ok world0 data0 = true ∧
  ∃ w',
    cell_6 data0 world0
      = (Ok (arithmetic_mean world0 data0 <$> seq 0 (snd (shape data0))), w') ∧
    stdout w' = stdout world0 ++ ["1 Processor";
                                  "Elapsed computation tiem: "
                                  +:+ format_2f (clock w' - clock world0) +:+ " s"] ∧
    calls w' = calls world0 ++ range (snd (shape data0)) ∧
    heap w' = heap world0.
Proof.
  split; [reflexivity|]. apply (cell_6_run world0 data0). reflexivity.
Defined.

Lemma cell_7_run_witness :
  ndarray_ok world2 data0 = true ∧
  ∃ w',
    cell_7 sched0 data0 world2
      = (Ok (arithmetic_mean world2 data0 <$> seq 0 (snd (shape data0))), w') ∧
    fst (cell_7 sched0 data0 world2) = fst (cell_6 data0 world2) ∧
    stdout w' = stdout world2 ++ ["2 Processors";
                                  "Elapsed computation tiem: "
                                  +:+ format_2f (clock w' - clock world2) +:+ " s"] ∧
    (clock w' == clock world2 + wall sched0)%Q ∧
    heap w' = heap world2.
Proof.
  split; [reflexivity|]. apply (cell_7_run world2 data0 sched0). reflexivity.
Defined.

Lemma cell_8_same_as_cell_7_witness :
  ndarray_ok world0 data0 = true ∧
  cell_8 sched1 data0 world0 = cell_7 sched1 data0 world0.
Proof.
  split; [reflexivity|]. apply (cell_8_same_as_cell_7 world0 data0 sched1). reflexivity.
Defined.

Lemma calc_column_mean_no_rows_witness :
  ndarray_ok world3 data3 = true ∧ fst (shape data3) = 0%nat ∧
  - Z.of_nat (snd (shape data3)) ≤ -1 < Z.of_nat (snd (shape data3)) ∧
  fst (calc_column_mean data3 (-1) world3) = Ok nan.
Proof.
  split; [reflexivity|]. split; [reflexivity|]. split; [simpl; lia|].
  change (nan : float) with (true_divide (F:=float) (add_reduce []) (of_count 0)).
  apply (calc_column_mean_no_rows world3 data3 (-1)); [reflexivity..|simpl; lia].
Defined.
